(** * Iterators and generators of [src/index.ts]

    A shallow embedding of the lightning-talk script: the hand-written
    iterator [range], the generator functions [xrange], [fibonacci] and
    [ipCandidates], and the consumers that drive them ([useRange], [for ... of],
    the spread operator, [ip]).

    Modelling conventions.
    - Numbers.  The script only ever adds integers and compares them, so the
      cursor of a sequence is an integer ([Z], exact arithmetic).  The upper
      bound [end] additionally ranges over [Infinity], its default value.
    - Closures.  The object returned by [range] closes over [index], [end]
      and [step]; it is a record of those three variables, and [next] maps
      the record to a result and the updated record.
    - Generators.  A generator object is the program point at which its body
      is suspended together with the live local variables; [next] runs the
      body up to the following [yield].
    - Loops.  [while], [for ... of] and spread need not terminate.  They take
      a fuel argument that bounds the number of [next] calls; the outcome
      [Running] says that the loop has not finished within the fuel. *)

From Stdlib Require Import ZArith Lia Sorted.
From stdpp Require Import gmap strings list fin_maps pretty.

Local Open Scope Z_scope.

(** ** JavaScript values, errors and outcomes *)

Inductive JSValue : Type :=
  | VUndefined
  | VNull
  | VBool (b : bool)
  | VNum (z : Z)
  | VStr (s : string).

(** ToBoolean: [undefined], [null], [false], [0] and the empty string are
    falsy. *)
Definition truthy (v : JSValue) : bool :=
  match v with
  | VUndefined => false
  | VNull => false
  | VBool b => b
  | VNum z => negb (z =? 0)
  | VStr s => negb (String.eqb s EmptyString)
  end.

(** [new Error(message)] *)
Inductive JSError : Type :=
  | Error (message : string).

(** What a call has produced after a bounded number of [next] calls. *)
Inductive outcome (A : Type) : Type :=
  | Returned (a : A)
  | Thrown (e : JSError)
  | Running.
Arguments Returned {A} a.
Arguments Thrown {A} e.
Arguments Running {A}.

Definition outcome_map {A B : Type} (f : A -> B) (o : outcome A) : outcome B :=
  match o with
  | Returned a => Returned (f a)
  | Thrown e => Thrown e
  | Running => Running
  end.

(** The upper bound of a ranged sequence: a number or [Infinity]. *)
Inductive bound : Type :=
  | Fin (z : Z)
  | Infinity.

(** [index < end] *)
Definition lt_bound (index : Z) (end_ : bound) : bool :=
  match end_ with
  | Fin e => index <? e
  | Infinity => true
  end.

(** ** The iteration protocol *)

Record IteratorResult (T : Type) : Type := mkResult { value : T; done : bool }.
Arguments mkResult {T} value done.
Arguments value {T} i.
Arguments done {T} i.

(** ** [range]: the hand-written iterator *)

Record RangeIterator : Type := mkRange { index : Z; end_ : bound; step : Z }.

Definition range (start : Z) (end_ : bound) (step : Z) : RangeIterator :=
  mkRange start end_ step.

(** Omitted arguments take the defaults [start = 0], [end = Infinity],
    [step = 1]. *)
Definition range_call (start : option Z) (end_ : option bound) (step : option Z)
  : RangeIterator :=
  range (default 0 start) (default Infinity end_) (default 1 step).

Definition range_next (it : RangeIterator) : IteratorResult Z * RangeIterator :=
  if lt_bound (index it) (end_ it) then
    (mkResult (index it) false,
     mkRange (index it + step it) (end_ it) (step it))
  else
    (mkResult (index it) true, it).

(** ** [xrange]: the generator version *)

Inductive XrangeGenerator : Type :=
  | XStart (start : Z) (end_ : bound) (step : Z)
  | XYielded (index : Z) (end_ : bound) (step : Z)
  | XCompleted.

Definition xrange (start : Z) (end_ : bound) (step : Z) : XrangeGenerator :=
  XStart start end_ step.

Definition xrange_call (start : option Z) (end_ : option bound) (step : option Z)
  : XrangeGenerator :=
  xrange (default 0 start) (default Infinity end_) (default 1 step).

(** One test of the [for] condition followed by [yield index] or by the end
    of the body. *)
Definition xrange_loop (index : Z) (end_ : bound) (step : Z)
  : IteratorResult JSValue * XrangeGenerator :=
  if lt_bound index end_ then
    (mkResult (VNum index) false, XYielded index end_ step)
  else
    (mkResult VUndefined true, XCompleted).

Definition xrange_next (g : XrangeGenerator)
  : IteratorResult JSValue * XrangeGenerator :=
  match g with
  | XStart start end_ step => xrange_loop start end_ step
  | XYielded index end_ step => xrange_loop (index + step) end_ step
  | XCompleted => (mkResult VUndefined true, XCompleted)
  end.



(** ** Consumers of an iterator *)

Section Consumers.
Context {St T : Type}.
Variable next : St -> IteratorResult T * St.

(** [[...iterable]]: call [next] until [done], collecting the values. *)
Fixpoint spread (fuel : nat) (it : St) : outcome (list T) :=
  match fuel with
  | O => Running
  | S fuel' =>
      let (result, it') := next it in
      if done result then Returned []
      else outcome_map (cons (value result)) (spread fuel' it')
  end.

(** [for (const x of iterable) console.log(x)]: the values logged, in
    order, added to the console contents [out]. *)
Fixpoint for_of_log (fuel : nat) (it : St) (out : list T) : outcome (list T) :=
  match fuel with
  | O => Running
  | S fuel' =>
      let (result, it') := next it in
      if done result then Returned out
      else for_of_log fuel' it' (out ++ [value result])
  end.

(** [while (!result.done) { console.log(result.value); result = iterator.next(); }] *)
Fixpoint while_not_done (fuel : nat) (result : IteratorResult T) (it : St)
    (out : list T) : outcome (list T) :=
  if done result then Returned out
  else
    match fuel with
    | O => Running
    | S fuel' =>
        let (result', it') := next it in
        while_not_done fuel' result' it' (out ++ [value result])
    end.

(** The [k]-th call of [next] (counting from 0): its result and the
    iterator it leaves behind. *)
Fixpoint nth_next (k : nat) (it : St) : IteratorResult T * St :=
  match k with
  | O => next it
  | S k' => nth_next k' (snd (next it))
  end.
End Consumers.

(** [useRange]: the values written to the console. *)
Definition useRange (fuel : nat) : outcome (list Z) :=
  let iterator := range_call (Some 0) (Some (Fin 10)) None in
  let (result, iterator) := range_next iterator in
  while_not_done range_next fuel result iterator [].

(** [iterable[Symbol.iterator]()] *)
Definition iterable_iterator (_ : unit) : RangeIterator :=
  range_call (Some 0) (Some (Fin 10)) None.

(** [for (const number of iterable) { console.log(number); }] *)
Definition for_of_iterable (fuel : nat) : outcome (list Z) :=
  for_of_log range_next fuel (iterable_iterator tt) [].

(** [const numbers = [...iterable]] *)
Definition numbers (fuel : nat) : outcome (list Z) :=
  spread range_next fuel (iterable_iterator tt).

(** ** [fibonacci]: a generator that receives a value at each [yield] *)

Inductive FibonacciGenerator : Type :=
  | FStart
  | FYielded (current next : Z).

Definition fibonacci : FibonacciGenerator := FStart.

(** [signal] is the argument of [next]; it becomes the value of the pending
    [yield] expression.  The argument of the first call is dropped, since no
    [yield] is pending then. *)
Definition fibonacci_next (g : FibonacciGenerator) (signal : JSValue)
  : IteratorResult JSValue * FibonacciGenerator :=
  match g with
  | FStart => (mkResult (VNum 0) false, FYielded 0 1)
  | FYielded current next =>
      let reset := signal in
      let '(current, next) := (next, next + current) in
      let '(current, next) := if truthy reset then (0, 1) else (current, next) in
      (mkResult (VNum current) false, FYielded current next)
  end.

Section Resume.
Context {St Sig T : Type}.
Variable next : St -> Sig -> IteratorResult T * St.

(** One [next] call per signal, in order. *)
Fixpoint resume_all (signals : list Sig) (it : St)
  : list (IteratorResult T) * St :=
  match signals with
  | [] => ([], it)
  | signal :: signals' =>
      let (result, it') := next it signal in
      let (results, it'') := resume_all signals' it' in
      (result :: results, it'')
  end.
End Resume.

(** The eleven calls on [sequence]: [next()] passes [undefined]. *)
Definition sequence_signals : list JSValue :=
  replicate 7 VUndefined ++ [VBool true] ++ replicate 3 VUndefined.

Definition sequence_log : list JSValue :=
  value <$> fst (resume_all fibonacci_next sequence_signals fibonacci).

(** ** [ip]: the first truthy candidate *)

Definition parseApiGatewayHeader (header secret : JSValue) : JSValue :=
  VStr "parsed".

Definition parseCloudflareHeader (header : JSValue) : JSValue :=
  VStr "parsed".

Record Request : Type := mkRequest {
  request_headers : gmap string JSValue;
  request_ip : JSValue
}.

(** [object[key]]: a missing property reads as [undefined]. *)
Definition get (object : gmap string JSValue) (key : string) : JSValue :=
  default VUndefined (object !! key).

(** What [ip] does to the outside: calls of the two parsers and records
    handed to [reply.log.error]. *)
Inductive Event : Type :=
  | EvParseApiGatewayHeader (header secret : JSValue)
  | EvParseCloudflareHeader (header : JSValue)
  | EvLogError (fields : list (string * JSValue)) (message : string).

Definition is_api_gateway_call (ev : Event) : bool :=
  match ev with EvParseApiGatewayHeader _ _ => true | _ => false end.

Definition is_cloudflare_call (ev : Event) : bool :=
  match ev with EvParseCloudflareHeader _ => true | _ => false end.

Definition is_log_error (ev : Event) : bool :=
  match ev with EvLogError _ _ => true | _ => false end.

Definition calls (p : Event -> bool) (trace : list Event) : nat :=
  length (List.filter p trace).

Inductive IpCandidates : Type :=
  | IpStart
  | IpYielded1
  | IpYielded2
  | IpYielded3
  | IpCompleted.

Definition ip_error_message : string :=
  "Could not determine user's IP based on request.".

Section Ip.
(** The bodies of the two parsers are placeholders in the script ("do some
    heavy computation"); [ip] is defined over any pair of parsers and
    instantiated with the script's below. *)
Variable parse_api_gateway : JSValue -> JSValue -> JSValue.
Variable parse_cloudflare : JSValue -> JSValue.

Section Candidates.
Variables apiGatewayHeader cloudflareHeader requestIp : JSValue.

(** Each parser call sits in the operand of its [yield]: it runs when
    [next] reaches that [yield], not before. *)
Definition ipCandidates_next (g : IpCandidates) (trace : list Event)
  : IteratorResult JSValue * IpCandidates * list Event :=
  match g with
  | IpStart =>
      (mkResult (parse_api_gateway apiGatewayHeader (VStr "secret")) false,
       IpYielded1,
       trace ++ [EvParseApiGatewayHeader apiGatewayHeader (VStr "secret")])
  | IpYielded1 =>
      (mkResult (parse_cloudflare cloudflareHeader) false,
       IpYielded2,
       trace ++ [EvParseCloudflareHeader cloudflareHeader])
  | IpYielded2 => (mkResult requestIp false, IpYielded3, trace)
  | IpYielded3 => (mkResult VUndefined true, IpCompleted, trace)
  | IpCompleted => (mkResult VUndefined true, IpCompleted, trace)
  end.

(** [for (const candidate of ipCandidates()) { if (candidate) return candidate; }]
    [Some candidate] is the [return] inside the loop, [None] the loop
    running to its end. *)
Fixpoint ip_for_of (fuel : nat) (g : IpCandidates) (trace : list Event)
  : outcome (option JSValue) * list Event :=
  match fuel with
  | O => (Running, trace)
  | S fuel' =>
      let '(result, g', trace') := ipCandidates_next g trace in
      if done result then (Returned None, trace')
      else
        let candidate := value result in
        if truthy candidate then (Returned (Some candidate), trace')
        else ip_for_of fuel' g' trace'
  end.
End Candidates.

Definition ip_with (fuel : nat) (request : Request)
  : outcome JSValue * list Event :=
  let apiGatewayHeader := get (request_headers request) "api-gw-header" in
  let cloudflareHeader := get (request_headers request) "cf-header" in
  let requestIp := request_ip request in
  match ip_for_of apiGatewayHeader cloudflareHeader requestIp fuel IpStart [] with
  | (Returned (Some candidate), trace) => (Returned candidate, trace)
  | (Returned None, trace) =>
      (Thrown (Error ip_error_message),
       trace ++ [EvLogError [("api-gw-header", apiGatewayHeader);
                             ("cf-header", cloudflareHeader);
                             ("requestIp", requestIp)]
                            ip_error_message])
  | (Thrown e, trace) => (Thrown e, trace)
  | (Running, trace) => (Running, trace)
  end.
End Ip.

(** [ip] is an [async] function: [Returned] is the value its promise is
    fulfilled with, [Thrown] the error the promise is rejected with.  The
    body awaits nothing, so it runs in one piece. *)
Definition ip (fuel : nat) (request : Request) : outcome JSValue * list Event :=
  ip_with parseApiGatewayHeader parseCloudflareHeader fuel request.

(** ** The arithmetic progression of a ranged sequence *)

(** The ceiling of [a / b] for [0 < b]. *)
Definition ceil_div (a b : Z) : Z := - ((- a) / b).

(** The number of values of a ranged sequence with [step > 0]:
    [ceil((end - start) / step)] when that is positive, else 0. *)
Definition count (start e step : Z) : nat :=
  Z.to_nat (ceil_div (e - start) step).

Definition progression (start step : Z) (n : nat) : list Z :=
  (fun k : nat => start + step * Z.of_nat k) <$> seq 0 n.

(** ** [retryIndefinitely] *)

(** ToString, as applied to the substitutions of a template literal. *)
Definition to_string (v : JSValue) : string :=
  match v with
  | VUndefined => "undefined"
  | VNull => "null"
  | VBool true => "true"
  | VBool false => "false"
  | VNum z => pretty z
  | VStr s => s
  end.

Section Retry.
(** The operation is supplied by the caller.  [longRunningOperation k] is
    how the promise returned by its [k]-th call (counting from 0) settles:
    [Returned tt] when it is fulfilled, [Thrown e] when it is rejected with
    [e], [Running] when it never settles. *)
Variable longRunningOperation : nat -> outcome unit.

(** [for (const nthTry of xrange(1, Infinity)) { console.log(...); await longRunningOperation(); }]
    with the number of calls of the operation made so far and the console
    contents.  A rejected [await] throws out of the loop. *)
Fixpoint retry_for_of (fuel : nat) (g : XrangeGenerator) (attempts : nat)
    (out : list string) : outcome unit * nat * list string :=
  match fuel with
  | O => (Running, attempts, out)
  | S fuel' =>
      let (result, g') := xrange_next g in
      if done result then (Returned tt, attempts, out)
      else
        let nthTry := value result in
        let out' := out ++ [to_string nthTry +:+ ". try:"] in
        match longRunningOperation attempts with
        | Returned _ => retry_for_of fuel' g' (S attempts) out'
        | Thrown e => (Thrown e, S attempts, out')
        | Running => (Running, S attempts, out')
        end
  end.

Definition retryIndefinitely (fuel : nat) : outcome unit * nat * list string :=
  retry_for_of fuel (xrange_call (Some 1) (Some Infinity) None) O [].
End Retry.

(** ** Reference notions for the properties *)



(** The line that [retryIndefinitely] logs before its [n]-th try, and the
    lines of the tries 1 to [m]. *)
Definition try_log (n : Z) : string := pretty n +:+ ". try:".

Definition try_logs (m : nat) : list string :=
  (fun j : nat => try_log (Z.of_nat (S j))) <$> seq 0 m.

(** A [range] iterator and an [xrange] generator that have the same calls of
    [next] ahead of them. *)
Inductive range_xrange_sim : RangeIterator -> XrangeGenerator -> Prop :=
  | sim_start i e s : range_xrange_sim (mkRange i e s) (XStart i e s)
  | sim_yielded i e s : range_xrange_sim (mkRange (i + s) e s) (XYielded i e s)
  | sim_completed i e s :
      lt_bound i e = false -> range_xrange_sim (mkRange i e s) XCompleted.

(** What [xrange] returns where [range] returns [result]: the same number
    while the sequence lasts, [undefined] once it is over. *)
Definition generator_result (result : IteratorResult Z) : IteratorResult JSValue :=
  if done result then mkResult VUndefined true
  else mkResult (VNum (value result)) false.

(** * Properties *)

(** ** Counting the terms below [end] *)

Lemma count_exhausted start e step :
  0 < step -> e <= start -> count start e step = O.
Proof.
  intros Hs He. unfold count, ceil_div.
  assert (0 <= (- (e - start)) / step) by (apply Z.div_pos; lia).
  lia.
Qed.

Lemma count_active start e step :
  0 < step -> start < e ->
  count start e step = S (count (start + step) e step).
Proof.
  intros Hs He. unfold count, ceil_div.
  replace (- (e - (start + step))) with (- (e - start) + 1 * step) by lia.
  rewrite Z.div_add by lia.
  assert ((- (e - start)) / step < 0) by (apply Z.div_lt_upper_bound; lia).
  lia.
Qed.

Lemma count_zero_inv start e step :
  0 < step -> count start e step = O -> e <= start.
Proof.
  intros Hs Hc. destruct (Z_lt_le_dec start e) as [Hlt|]; [|assumption].
  rewrite (count_active _ _ _ Hs Hlt) in Hc. discriminate.
Qed.

Lemma count_succ_inv start e step n :
  0 < step -> count start e step = S n ->
  start < e /\ count (start + step) e step = n.
Proof.
  intros Hs Hc. destruct (Z_lt_le_dec start e) as [Hlt|Hge].
  - split; [assumption|]. rewrite (count_active _ _ _ Hs Hlt) in Hc. congruence.
  - rewrite (count_exhausted _ _ _ Hs Hge) in Hc. discriminate.
Qed.

(** ** The progression *)

Lemma progression_S start step n :
  progression start step (S n) = start :: progression (start + step) step n.
Proof.
  unfold progression. cbn [seq fmap list_fmap].
  f_equal; [lia|].
  rewrite <- fmap_S_seq, <- list_fmap_compose.
  apply list_fmap_ext. intros _ k _. cbn. lia.
Qed.






(** ** One step of [range] and [xrange] *)

Lemma range_next_active i e s :
  lt_bound i e = true ->
  range_next (mkRange i e s) = (mkResult i false, mkRange (i + s) e s).
Proof. intros H. unfold range_next. cbn. by rewrite H. Qed.

Lemma range_next_exhausted i e s :
  lt_bound i e = false ->
  range_next (mkRange i e s) = (mkResult i true, mkRange i e s).
Proof. intros H. unfold range_next. cbn. by rewrite H. Qed.

Lemma xrange_loop_active i e s :
  lt_bound i e = true ->
  xrange_loop i e s = (mkResult (VNum i) false, XYielded i e s).
Proof. intros H. unfold xrange_loop. by rewrite H. Qed.

Lemma xrange_loop_exhausted i e s :
  lt_bound i e = false ->
  xrange_loop i e s = (mkResult VUndefined true, XCompleted).
Proof. intros H. unfold xrange_loop. by rewrite H. Qed.

(** ** Materializing a ranged sequence *)

Lemma spread_range start e step n fuel :
  0 < step -> count start e step = n -> (n < fuel)%nat ->
  spread range_next fuel (range start (Fin e) step)
  = Returned (progression start step n).
Proof.
  intros Hs. revert start fuel. induction n as [|n IH]; intros start fuel Hn Hf.
  - apply count_zero_inv in Hn; [|assumption].
    destruct fuel as [|fuel]; [lia|]. cbn [spread]. unfold range.
    rewrite range_next_exhausted by (cbn; lia). reflexivity.
  - apply count_succ_inv in Hn as [Hlt Hn]; [|assumption].
    destruct fuel as [|fuel]; [lia|]. cbn [spread]. unfold range.
    rewrite range_next_active by (cbn; lia). cbn [done value].
    fold (range (start + step) (Fin e) step).
    rewrite (IH (start + step) fuel Hn) by lia.
    cbn [outcome_map]. by rewrite progression_S.
Qed.





(** ** Repeated calls of [next] on [range] *)

Lemma nth_next_S {St T : Type} (next : St -> IteratorResult T * St) k it :
  nth_next next (S k) it = nth_next next k (snd (next it)).
Proof. reflexivity. Qed.












(** ** [fibonacci] *)

(** C2. The eleven calls made on [sequence] - seven without argument, one
    with [true], three without argument - return the values
    0, 1, 1, 2, 3, 5, 8, 0, 1, 1, 2.  In whatever state the generator is, a
    call of [next] with a truthy argument returns 0 and leaves the cursor at
    [(0, 1)]. *)
Theorem fibonacci_trace_and_reset (g : FibonacciGenerator) (signal : JSValue) :
  truthy signal = true ->
  sequence_log = VNum <$> [0; 1; 1; 2; 3; 5; 8; 0; 1; 1; 2]
  /\ fst (resume_all fibonacci_next (replicate 7 VUndefined) fibonacci)
     = (fun z => mkResult (VNum z) false) <$> [0; 1; 1; 2; 3; 5; 8]
  /\ fibonacci_next g signal = (mkResult (VNum 0) false, FYielded 0 1).
Proof.
  intros Ht. split; [reflexivity|]. split; [reflexivity|].
  destruct g as [|current next]; [reflexivity|].
  unfold fibonacci_next. by rewrite Ht.
Qed.

Lemma fibonacci_trace_and_reset_witness :
  fibonacci_next (FYielded 8 13) (VBool true)
  = (mkResult (VNum 0) false, FYielded 0 1).
Proof.
  apply (fibonacci_trace_and_reset (FYielded 8 13) (VBool true)). reflexivity.
Defined.

(** ** The three ways of enumerating an iterator *)

Section ConsumerFacts.
Context {St T : Type}.
Variable next : St -> IteratorResult T * St.

(** Logging in a [for ... of] loop appends what spread would collect. *)
Lemma for_of_log_spread fuel it out :
  for_of_log next fuel it out = outcome_map (app out) (spread next fuel it).
Proof.
  revert it out. induction fuel as [|fuel IH]; intros it out; [reflexivity|].
  cbn [for_of_log spread]. destruct (next it) as [result it'].
  destruct (done result).
  - cbn. by rewrite app_nil_r.
  - rewrite IH. destruct (spread next fuel it') as [l| |]; cbn; [|done..].
    by rewrite <- app_assoc.
Qed.

(** The [while] loop of [useRange], entered with the result of a first
    call, logs what a [for ... of] loop over the same iterator logs. *)
Lemma while_not_done_for_of fuel it out :
  while_not_done next fuel (fst (next it)) (snd (next it)) out
  = for_of_log next (S fuel) it out.
Proof.
  revert it out. induction fuel as [|fuel IH]; intros it out.
  - cbn. destruct (next it) as [result it']; cbn.
    by destruct (done result).
  - cbn [while_not_done]. change (for_of_log next (S (S fuel)) it out) with
      (let (result, it') := next it in
       if done result then Returned out
       else for_of_log next (S fuel) it' (out ++ [value result])).
    destruct (next it) as [result it'] eqn:Hn; cbn [fst snd].
    destruct (done result); [reflexivity|].
    rewrite <- IH. by destruct (next it').
Qed.

Lemma resume_all_length {Sig : Type} (next' : St -> Sig -> IteratorResult T * St)
    (signals : list Sig) it :
  length (fst (resume_all next' signals it)) = length signals.
Proof.
  revert it. induction signals as [|signal signals IH]; intros it; [reflexivity|].
  cbn [resume_all]. destruct (next' it signal) as [result it'].
  specialize (IH it'). destruct (resume_all next' signals it'). cbn in *.
  by rewrite IH.
Qed.
End ConsumerFacts.

(** C6. Whatever the fuel, the [for ... of] loop over [iterable] logs, and
    spreading [iterable] collects, exactly what [useRange] logs by calling
    [next] directly on [range(0, 10)] (the loop of [useRange] has made one
    call before it starts, hence the shift by one); with fuel for ten
    iterations all three give 0, 1, ..., 9.  The same holds for the three
    loops over any [range] iterator. *)
Lemma range_loops_agree (fuel : nat) (it : RangeIterator) :
  for_of_log range_next (S fuel) it [] = spread range_next (S fuel) it
  /\ while_not_done range_next fuel (fst (range_next it))
       (snd (range_next it)) []
     = spread range_next (S fuel) it.
Proof.
  rewrite while_not_done_for_of, for_of_log_spread.
  split; by destruct (spread range_next (S fuel) it).
Qed.

Lemma useRange_spread (fuel : nat) :
  useRange fuel = spread range_next (S fuel) (iterable_iterator tt).
Proof.
  destruct (range_loops_agree fuel (iterable_iterator tt)) as [_ <-].
  unfold useRange, iterable_iterator.
  by destruct (range_next (range_call (Some 0) (Some (Fin 10)) None)).
Qed.

Theorem adapter_equivalence (fuel : nat) :
  for_of_iterable (S fuel) = useRange fuel
  /\ numbers (S fuel) = useRange fuel
  /\ useRange (10 + fuel) = Returned [0; 1; 2; 3; 4; 5; 6; 7; 8; 9]
  /\ (forall it : RangeIterator,
        for_of_log range_next (S fuel) it [] = spread range_next (S fuel) it
        /\ while_not_done range_next fuel (fst (range_next it))
             (snd (range_next it)) []
           = spread range_next (S fuel) it).
Proof.
  split; [|split; [|split]].
  - unfold for_of_iterable. rewrite useRange_spread. apply range_loops_agree.
  - by rewrite useRange_spread.
  - rewrite useRange_spread. unfold iterable_iterator, range_call. cbn [default].
    by rewrite (spread_range 0 10 1 10) by (reflexivity || lia).
  - apply range_loops_agree.
Qed.

(** ** Totality of [next] *)

Lemma fibonacci_next_not_done g signal :
  done (fst (fibonacci_next g signal)) = false
  /\ exists z, value (fst (fibonacci_next g signal)) = VNum z.
Proof.
  destruct g as [|current next]; cbn; [eauto|].
  destruct (truthy signal); cbn; eauto.
Qed.

Lemma resume_all_fibonacci_results signals g :
  Forall (fun result => done result = false /\ exists z, value result = VNum z)
    (fst (resume_all fibonacci_next signals g)).
Proof.
  revert g. induction signals as [|signal signals IH]; intros g; [constructor|].
  cbn [resume_all].
  pose proof (fibonacci_next_not_done g signal) as Hr.
  destruct (fibonacci_next g signal) as [result g'].
  specialize (IH g'). destruct (resume_all fibonacci_next signals g').
  cbn in *. by constructor.
Qed.

(** C7. Whatever arguments are passed and however often [next] is called,
    on a [range] iterator, an [xrange] generator or a [fibonacci] generator
    in any state, the calls return one result (a value/done pair) each;
    [next] has no outcome other than a result.  The results of [fibonacci]
    all have [done = false] and a number as value. *)
Theorem resume_total (signals : list JSValue) :
  (forall it : RangeIterator,
     exists results it',
       resume_all (fun it _ => range_next it) signals it = (results, it')
       /\ length results = length signals)
  /\ (forall g : XrangeGenerator,
     exists results g',
       resume_all (fun g _ => xrange_next g) signals g = (results, g')
       /\ length results = length signals)
  /\ (forall g : FibonacciGenerator,
     exists results g',
       resume_all fibonacci_next signals g = (results, g')
       /\ length results = length signals
       /\ Forall (fun result => done result = false
                                /\ exists z, value result = VNum z) results).
Proof.
  split; [|split].
  - intros it.
    pose proof (resume_all_length (fun it _ => range_next it) signals it) as Hl.
    destruct (resume_all _ signals it) as [results it']. eauto.
  - intros g.
    pose proof (resume_all_length (fun g _ => xrange_next g) signals g) as Hl.
    destruct (resume_all _ signals g) as [results g']. eauto.
  - intros g.
    pose proof (resume_all_length fibonacci_next signals g) as Hl.
    pose proof (resume_all_fibonacci_results signals g) as Hf.
    destruct (resume_all _ signals g) as [results g']. eauto.
Qed.

(** ** Sequences without an upper bound *)






(** ** Construction *)



(** ** [ip] *)

Section IpFacts.
Variable parse_api_gateway : JSValue -> JSValue -> JSValue.
Variable parse_cloudflare : JSValue -> JSValue.

(** The loop over [ipCandidates()] needs at most four calls of [next]. *)
Lemma ip_for_of_cases (a c r : JSValue) (fuel : nat) :
  (4 <= fuel)%nat ->
  let c1 := parse_api_gateway a (VStr "secret") in
  let c2 := parse_cloudflare c in
  let gw := EvParseApiGatewayHeader a (VStr "secret") in
  let cf := EvParseCloudflareHeader c in
  ip_for_of parse_api_gateway parse_cloudflare a c r fuel IpStart []
  = if truthy c1 then (Returned (Some c1), [gw])
    else if truthy c2 then (Returned (Some c2), [gw; cf])
    else if truthy r then (Returned (Some r), [gw; cf])
    else (Returned None, [gw; cf]).
Proof.
  intros Hf. do 4 (destruct fuel as [|fuel]; [lia|]). clear Hf.
  cbn [ip_for_of ipCandidates_next done value app].
  destruct (truthy (parse_api_gateway a (VStr "secret"))); [reflexivity|].
  destruct (truthy (parse_cloudflare c)); [reflexivity|].
  destruct (truthy r); reflexivity.
Qed.
End IpFacts.

(** C3. With fuel for the four [next] calls the loop can make, [ip] calls
    each parser at most once.  If the first candidate is truthy it is
    returned and the Cloudflare parser is never called; if only the second
    is truthy, or only the third (the request's own address), that one is
    returned after one call of each parser; if all three are falsy, [ip]
    hands the three inputs to [reply.log.error] and then throws the error
    "Could not determine user's IP based on request.". *)
Theorem ip_candidates_lazy
    (parse_api_gateway : JSValue -> JSValue -> JSValue)
    (parse_cloudflare : JSValue -> JSValue) (fuel : nat) (request : Request) :
  (4 <= fuel)%nat ->
  let apiGatewayHeader := get (request_headers request) "api-gw-header" in
  let cloudflareHeader := get (request_headers request) "cf-header" in
  let requestIp := request_ip request in
  let c1 := parse_api_gateway apiGatewayHeader (VStr "secret") in
  let c2 := parse_cloudflare cloudflareHeader in
  let gw := EvParseApiGatewayHeader apiGatewayHeader (VStr "secret") in
  let cf := EvParseCloudflareHeader cloudflareHeader in
  let run := ip_with parse_api_gateway parse_cloudflare fuel request in
  ((calls is_api_gateway_call (snd run) <= 1)%nat
   /\ (calls is_cloudflare_call (snd run) <= 1)%nat)
  /\ (truthy c1 = true -> run = (Returned c1, [gw]))
  /\ (truthy c1 = false -> truthy c2 = true -> run = (Returned c2, [gw; cf]))
  /\ (truthy c1 = false -> truthy c2 = false -> truthy requestIp = true ->
      run = (Returned requestIp, [gw; cf]))
  /\ (truthy c1 = false -> truthy c2 = false -> truthy requestIp = false ->
      run = (Thrown (Error ip_error_message),
             [gw; cf;
              EvLogError [("api-gw-header", apiGatewayHeader);
                          ("cf-header", cloudflareHeader);
                          ("requestIp", requestIp)]
                         ip_error_message])).
Proof.
  intros Hf. cbv zeta. unfold ip_with.
  rewrite ip_for_of_cases by exact Hf. cbv zeta.
  destruct (truthy (parse_api_gateway _ _)), (truthy (parse_cloudflare _)),
    (truthy (request_ip request));
    repeat split; intros; try discriminate; try reflexivity; cbn; lia.
Qed.

Lemma ip_candidates_lazy_witness :
  ip_with (fun _ _ => VStr "") (fun _ => VUndefined) 4
    (mkRequest (<["cf-header" := VStr "x"]> ∅) VUndefined)
  = (Thrown (Error ip_error_message),
     [EvParseApiGatewayHeader VUndefined (VStr "secret");
      EvParseCloudflareHeader (VStr "x");
      EvLogError [("api-gw-header", VUndefined); ("cf-header", VStr "x");
                  ("requestIp", VUndefined)]
                 ip_error_message]).
Proof.
  destruct (ip_candidates_lazy (fun _ _ => VStr "") (fun _ => VUndefined) 4
              (mkRequest (<["cf-header" := VStr "x"]> ∅) VUndefined))
    as (_ & _ & _ & _ & Hthrow); [lia|].
  apply Hthrow; reflexivity.
Defined.

(** With the parsers as the script defines them the first candidate is the
    string "parsed": [ip] returns it after one parser call. *)
Lemma ip_script_parsers (fuel : nat) (request : Request) :
  ip (4 + fuel) request
  = (Returned (VStr "parsed"),
     [EvParseApiGatewayHeader (get (request_headers request) "api-gw-header")
        (VStr "secret")]).
Proof.
  unfold ip, ip_with.
  by rewrite ip_for_of_cases by lia.
Qed.

(** * Further properties *)

(** ** [xrange] against [range] *)

Lemma range_xrange_sim_step it g :
  range_xrange_sim it g ->
  fst (xrange_next g) = generator_result (fst (range_next it))
  /\ range_xrange_sim (snd (range_next it)) (snd (xrange_next g)).
Proof.
  intros Hsim. destruct Hsim as [i e s|i e s|i e s Hex].
  - cbn [xrange_next]. destruct (lt_bound i e) eqn:Hlt.
    + rewrite range_next_active, xrange_loop_active by done.
      split; [reflexivity|constructor].
    + rewrite range_next_exhausted, xrange_loop_exhausted by done.
      split; [reflexivity|by constructor].
  - cbn [xrange_next]. destruct (lt_bound (i + s) e) eqn:Hlt.
    + rewrite range_next_active, xrange_loop_active by done.
      split; [reflexivity|constructor].
    + rewrite range_next_exhausted, xrange_loop_exhausted by done.
      split; [reflexivity|by constructor].
  - rewrite range_next_exhausted by done.
    split; [reflexivity|by constructor].
Qed.

Lemma nth_next_sim it g (k : nat) :
  range_xrange_sim it g ->
  fst (nth_next xrange_next k g) = generator_result (fst (nth_next range_next k it)).
Proof.
  revert it g. induction k as [|k IH]; intros it g Hsim;
    destruct (range_xrange_sim_step it g Hsim) as [Hres Hnext]; [exact Hres|].
  rewrite !nth_next_S. by apply IH.
Qed.

Lemma spread_sim it g (fuel : nat) :
  range_xrange_sim it g ->
  spread xrange_next fuel g
  = outcome_map (fmap VNum) (spread range_next fuel it).
Proof.
  revert it g. induction fuel as [|fuel IH]; intros it g Hsim; [reflexivity|].
  destruct (range_xrange_sim_step it g Hsim) as [Hres Hnext].
  cbn [spread].
  destruct (range_next it) as [result it'], (xrange_next g) as [result' g'].
  cbn [fst snd] in *. subst result'. unfold generator_result.
  destruct (done result); cbn [done value]; [reflexivity|].
  rewrite (IH it' g' Hnext).
  by destruct (spread range_next fuel it').
Qed.

(** X1. For every start, end (a number or [Infinity]) and step, of any
    sign, the generator [xrange] and the hand-written iterator [range]
    produce the same sequence: each call of [next] has the same [done] flag
    and, while [done] is false, the same number as value, and spreading
    either gives the same outcome.  They differ in the value of a finished
    call only: [undefined] for [xrange], the index for [range]. *)
Theorem xrange_matches_range (start : Z) (e : bound) (step : Z) (k fuel : nat) :
  fst (nth_next xrange_next k (xrange start e step))
    = generator_result (fst (nth_next range_next k (range start e step)))
  /\ done (fst (nth_next xrange_next k (xrange start e step)))
    = done (fst (nth_next range_next k (range start e step)))
  /\ spread xrange_next fuel (xrange start e step)
    = outcome_map (fmap VNum) (spread range_next fuel (range start e step)).
Proof.
  assert (Hsim : range_xrange_sim (range start e step) (xrange start e step))
    by constructor.
  split; [by apply nth_next_sim|]. split; [|by apply spread_sim].
  rewrite (nth_next_sim _ _ k Hsim). unfold generator_result.
  by destruct (done (fst (nth_next range_next k (range start e step)))).
Qed.



(** ** Which numbers a range contains *)




(** ** Splitting and resuming a range *)









(** ** Steps that do not advance *)

Lemma spread_range_endless i e s (fuel : nat) :
  (forall j : nat, lt_bound (i + s * Z.of_nat j) e = true) ->
  spread range_next fuel (mkRange i e s) = Running.
Proof.
  revert i. induction fuel as [|fuel IH]; intros i Hlt; [reflexivity|].
  cbn [spread]. rewrite range_next_active.
  - cbn [done value]. rewrite IH; [reflexivity|].
    intros j. specialize (Hlt (S j)).
    by replace (i + s + s * Z.of_nat j) with (i + s * Z.of_nat (S j)) by lia.
  - specialize (Hlt O). by replace (i + s * Z.of_nat 0) with i in Hlt by lia.
Qed.

(** X6. With [step <= 0] a ranged sequence is never a finite non-empty
    list: if [start] is not below [end], spreading [range] or [xrange]
    returns the empty list after one call of [next] (so [range(10, 0, -1)]
    is empty, not a countdown); if [start < end], spreading has not returned
    after any number of calls. *)
Theorem nonpositive_step_empty_or_endless (start : Z) (e : bound) (step : Z)
    (fuel : nat) :
  step <= 0 ->
  (lt_bound start e = false ->
     spread range_next (S fuel) (range start e step) = Returned []
     /\ spread xrange_next (S fuel) (xrange start e step) = Returned [])
  /\ (lt_bound start e = true ->
     spread range_next fuel (range start e step) = Running
     /\ spread xrange_next fuel (xrange start e step) = Running).
Proof.
  intros Hs.
  assert (Hsim : range_xrange_sim (range start e step) (xrange start e step))
    by constructor.
  split; intros Hlt.
  - assert (Hr : spread range_next (S fuel) (range start e step) = Returned []).
    { cbn [spread]. unfold range. by rewrite range_next_exhausted. }
    split; [exact Hr|]. by rewrite (spread_sim _ _ _ Hsim), Hr.
  - assert (Hr : spread range_next fuel (range start e step) = Running).
    { apply spread_range_endless. intros j.
      destruct e as [e|]; [|reflexivity]. cbn in *.
      apply Z.ltb_lt. apply Z.ltb_lt in Hlt. nia. }
    split; [exact Hr|]. by rewrite (spread_sim _ _ _ Hsim), Hr.
Qed.

Lemma nonpositive_step_empty_or_endless_witness :
  spread range_next 1 (range 10 (Fin 0) (-1)) = Returned []
  /\ spread range_next 50 (range 0 (Fin 10) (-1)) = Running.
Proof.
  split.
  - apply (nonpositive_step_empty_or_endless 10 (Fin 0) (-1) 0); [lia|reflexivity].
  - apply (nonpositive_step_empty_or_endless 0 (Fin 10) (-1) 50); [lia|reflexivity].
Defined.


(** ** [fibonacci] and the Fibonacci numbers *)











(** ** What the outcome of [ip] tells *)

(** Runs [ip] symbolically for a given amount of fuel and splits on the
    truthiness of the candidates it tests. *)
Ltac ip_cases :=
  unfold ip_with;
  cbn [ip_for_of ipCandidates_next done value app];
  repeat match goal with
  | |- context [truthy ?c] =>
      lazymatch c with
      | context [match _ with _ => _ end] => fail
      | _ => let H := fresh "Htruthy" in destruct (truthy c) eqn:H
      end
  end.

(** X11. Whatever the parsers and the request: when [ip] returns a value,
    that value is truthy, it is one of the three candidates (the parsed
    gateway header, the parsed Cloudflare header, the request's address) and
    nothing has been written to the error log. *)
Theorem ip_result_truthy
    (parse_api_gateway : JSValue -> JSValue -> JSValue)
    (parse_cloudflare : JSValue -> JSValue) (fuel : nat) (request : Request)
    (v : JSValue) :
  fst (ip_with parse_api_gateway parse_cloudflare fuel request) = Returned v ->
  truthy v = true
  /\ (v = parse_api_gateway (get (request_headers request) "api-gw-header")
            (VStr "secret")
      \/ v = parse_cloudflare (get (request_headers request) "cf-header")
      \/ v = request_ip request)
  /\ calls is_log_error
       (snd (ip_with parse_api_gateway parse_cloudflare fuel request)) = O.
Proof.
  destruct fuel as [|[|[|[|fuel]]]]; ip_cases; cbn [fst snd];
    intros Hv; try discriminate Hv; try congruence; injection Hv as <-; auto.
Qed.

Lemma ip_result_truthy_witness :
  truthy (VStr "1.2.3.4") = true
  /\ calls is_log_error
       (snd (ip_with (fun _ _ => VStr "") (fun _ => VUndefined) 3
               (mkRequest ∅ (VStr "1.2.3.4")))) = O.
Proof.
  destruct (ip_result_truthy (fun _ _ => VStr "") (fun _ => VUndefined) 3
              (mkRequest ∅ (VStr "1.2.3.4")) (VStr "1.2.3.4"))
    as (Ht & _ & Hlog); [reflexivity|].
  split; [exact Ht | exact Hlog].
Defined.

(** X12. Whatever the parsers and the request: when [ip] throws, the error
    is the one with the message "Could not determine user's IP based on
    request.", all three candidates were falsy, both parsers have been
    called, and the last thing [ip] did was to write the one record to the
    error log. *)
Theorem ip_throws_only_when_all_falsy
    (parse_api_gateway : JSValue -> JSValue -> JSValue)
    (parse_cloudflare : JSValue -> JSValue) (fuel : nat) (request : Request)
    (err : JSError) :
  fst (ip_with parse_api_gateway parse_cloudflare fuel request) = Thrown err ->
  let trace := snd (ip_with parse_api_gateway parse_cloudflare fuel request) in
  err = Error ip_error_message
  /\ truthy (parse_api_gateway (get (request_headers request) "api-gw-header")
               (VStr "secret")) = false
  /\ truthy (parse_cloudflare (get (request_headers request) "cf-header")) = false
  /\ truthy (request_ip request) = false
  /\ calls is_api_gateway_call trace = 1%nat
  /\ calls is_cloudflare_call trace = 1%nat
  /\ calls is_log_error trace = 1%nat
  /\ is_log_error <$> last trace = Some true.
Proof.
  destruct fuel as [|[|[|[|fuel]]]]; ip_cases; cbn [fst snd];
    intros Herr; try discriminate Herr; try congruence; injection Herr as <-;
    repeat split; reflexivity.
Qed.

Lemma ip_throws_only_when_all_falsy_witness :
  truthy (request_ip (mkRequest ∅ (VNum 0))) = false
  /\ calls is_log_error
       (snd (ip_with (fun _ _ => VStr "") (fun _ => VUndefined) 4
               (mkRequest ∅ (VNum 0)))) = 1%nat.
Proof.
  destruct (ip_throws_only_when_all_falsy (fun _ _ => VStr "")
              (fun _ => VUndefined) 4 (mkRequest ∅ (VNum 0))
              (Error ip_error_message))
    as (_ & _ & _ & Hip & _ & _ & Hlog & _); [reflexivity|].
  split; [exact Hip | exact Hlog].
Defined.

(** X13. [ip] reads two headers only: setting or removing any header other
    than "api-gw-header" and "cf-header" changes neither its outcome nor the
    parser calls and log records it makes. *)
Theorem ip_ignores_other_headers
    (parse_api_gateway : JSValue -> JSValue -> JSValue)
    (parse_cloudflare : JSValue -> JSValue) (fuel : nat)
    (headers : gmap string JSValue) (address : JSValue)
    (key : string) (v : JSValue) :
  key <> "api-gw-header" -> key <> "cf-header" ->
  ip_with parse_api_gateway parse_cloudflare fuel
    (mkRequest (<[key := v]> headers) address)
  = ip_with parse_api_gateway parse_cloudflare fuel (mkRequest headers address)
  /\ ip_with parse_api_gateway parse_cloudflare fuel
       (mkRequest (delete key headers) address)
     = ip_with parse_api_gateway parse_cloudflare fuel (mkRequest headers address).
Proof.
  intros Hgw Hcf. unfold ip_with, get. cbn [request_headers request_ip].
  by rewrite !lookup_insert_ne, !lookup_delete_ne by done.
Qed.

Lemma ip_ignores_other_headers_witness :
  ip_with (fun h _ => h) (fun h => h) 4
    (mkRequest (<["user-agent" := VStr "curl"]> {["cf-header" := VStr "c"]}) VNull)
  = ip_with (fun h _ => h) (fun h => h) 4
      (mkRequest {["cf-header" := VStr "c"]} VNull).
Proof.
  apply (ip_ignores_other_headers (fun h _ => h) (fun h => h) 4
           {["cf-header" := VStr "c"]} VNull "user-agent" (VStr "curl"));
    discriminate.
Defined.

(** X14. A header that the request does not carry is not skipped: with any
    fuel for one call of [next], [ip] starts by calling the gateway parser,
    on [undefined] when "api-gw-header" is absent; and if that result is
    falsy it calls the Cloudflare parser next, on [undefined] when
    "cf-header" is absent. *)
Theorem ip_parses_missing_headers
    (parse_api_gateway : JSValue -> JSValue -> JSValue)
    (parse_cloudflare : JSValue -> JSValue) (fuel : nat) (request : Request) :
  request_headers request !! "api-gw-header" = None ->
  request_headers request !! "cf-header" = None ->
  let trace := snd (ip_with parse_api_gateway parse_cloudflare (S (S fuel)) request) in
  trace !! O = Some (EvParseApiGatewayHeader VUndefined (VStr "secret"))
  /\ (truthy (parse_api_gateway VUndefined (VStr "secret")) = false ->
      trace !! 1%nat = Some (EvParseCloudflareHeader VUndefined)).
Proof.
  intros Hgw Hcf. unfold ip_with, get. rewrite Hgw, Hcf. cbn [default from_option].
  destruct fuel as [|[|fuel]];
    cbn [ip_for_of ipCandidates_next done value app request_ip];
    destruct (truthy (parse_api_gateway VUndefined (VStr "secret")));
    destruct (truthy (parse_cloudflare VUndefined));
    destruct (truthy (request_ip request));
    cbn; split; (reflexivity || (intros; (reflexivity || discriminate))).
Qed.

Lemma ip_parses_missing_headers_witness :
  snd (ip_with (fun _ _ => VNull) (fun _ => VStr "9.9.9.9") 2
         (mkRequest ∅ VUndefined)) !! 1%nat
  = Some (EvParseCloudflareHeader VUndefined).
Proof.
  destruct (ip_parses_missing_headers (fun _ _ => VNull)
              (fun _ => VStr "9.9.9.9") 0 (mkRequest ∅ VUndefined))
    as [_ Hcf]; [reflexivity | reflexivity |].
  apply Hcf. reflexivity.
Defined.

(** X15. With the two parsers as the script defines them, [ip] returns the
    string "parsed" for every request, after the single call of
    [parseApiGatewayHeader]: it never calls [parseCloudflareHeader], never
    returns the request's address, never logs and never throws. *)
Theorem ip_returns_parsed (fuel : nat) (request : Request) :
  ip (S fuel) request
  = (Returned (VStr "parsed"),
     [EvParseApiGatewayHeader (get (request_headers request) "api-gw-header")
        (VStr "secret")]).
Proof. reflexivity. Qed.

(** ** [retryIndefinitely] *)

Section RetryFacts.
Variable longRunningOperation : nat -> outcome unit.

Lemma retry_for_of_start fuel attempts out :
  retry_for_of longRunningOperation fuel (XStart 1 Infinity 1) attempts out
  = retry_for_of longRunningOperation fuel (XYielded 0 Infinity 1) attempts out.
Proof. by destruct fuel. Qed.

Lemma try_logs_shift (i : Z) (m : nat) :
  try_log (i + 1) :: ((fun j : nat => try_log (i + 1 + 1 + Z.of_nat j)) <$> seq 0 m)
  = (fun j : nat => try_log (i + 1 + Z.of_nat j)) <$> seq 0 (S m).
Proof.
  cbn [seq fmap list_fmap]. f_equal; [f_equal; lia|].
  rewrite <- fmap_S_seq, <- list_fmap_compose.
  apply list_fmap_ext. intros _ j _. cbn. f_equal. lia.
Qed.

(** As long as the operation is fulfilled the loop goes on: [m] tries take
    the generator, the call count and the console [m] steps further. *)
Lemma retry_for_of_fulfilled (m fuel : nat) (i : Z) (attempts : nat)
    (out : list string) :
  (forall j : nat, (j < m)%nat ->
     longRunningOperation (attempts + j)%nat = Returned tt) ->
  retry_for_of longRunningOperation (m + fuel) (XYielded i Infinity 1) attempts out
  = retry_for_of longRunningOperation fuel
      (XYielded (i + Z.of_nat m) Infinity 1) (attempts + m)
      (out ++ ((fun j : nat => try_log (i + 1 + Z.of_nat j)) <$> seq 0 m)).
Proof.
  revert i attempts out. induction m as [|m IH]; intros i attempts out Hok.
  - cbn [Nat.add seq fmap list_fmap]. rewrite app_nil_r, Nat.add_0_r.
    by replace (i + Z.of_nat 0) with i by lia.
  - change (S m + fuel)%nat with (S (m + fuel)).
    cbn [retry_for_of xrange_next].
    rewrite xrange_loop_active by reflexivity. cbn [done value to_string].
    pose proof (Hok O ltac:(lia)) as H0. rewrite Nat.add_0_r in H0. rewrite H0.
    rewrite IH.
    + rewrite <- app_assoc. cbn [app]. fold (try_log (i + 1)).
      rewrite try_logs_shift.
      replace (i + 1 + Z.of_nat m) with (i + Z.of_nat (S m)) by lia.
      by replace (S attempts + m)%nat with (attempts + S m)%nat by lia.
    + intros j Hj. specialize (Hok (S j) ltac:(lia)).
      by replace (S attempts + j)%nat with (attempts + S j)%nat by lia.
Qed.

Lemma retry_for_of_never_returns fuel i s attempts out :
  fst (fst (retry_for_of longRunningOperation fuel (XYielded i Infinity s)
              attempts out)) <> Returned tt.
Proof.
  revert i attempts out. induction fuel as [|fuel IH]; intros i attempts out;
    [discriminate|].
  cbn [retry_for_of xrange_next].
  rewrite xrange_loop_active by reflexivity. cbn [done value].
  destruct (longRunningOperation attempts); [apply IH|discriminate..].
Qed.

Lemma retry_for_of_logs fuel i attempts out :
  let run := retry_for_of longRunningOperation fuel (XYielded i Infinity 1)
               attempts out in
  exists m : nat,
    (m <= fuel)%nat
    /\ snd (fst run) = (attempts + m)%nat
    /\ snd run = out ++ ((fun j : nat => try_log (i + 1 + Z.of_nat j)) <$> seq 0 m).
Proof.
  revert i attempts out. induction fuel as [|fuel IH]; intros i attempts out.
  - exists O. cbn. by rewrite app_nil_r, Nat.add_0_r.
  - cbn zeta. cbn [retry_for_of xrange_next].
    rewrite xrange_loop_active by reflexivity. cbn [done value to_string].
    fold (try_log (i + 1)).
    destruct (longRunningOperation attempts).
    + destruct (IH (i + 1) (S attempts) (out ++ [try_log (i + 1)]))
        as (m & Hm & Ha & Ho).
      exists (S m). split; [lia|]. split; [cbn zeta in Ha; rewrite Ha; lia|].
      cbn zeta in Ho. rewrite Ho, <- app_assoc. cbn [app].
      by rewrite try_logs_shift.
    + exists 1%nat. cbn [fst snd seq fmap list_fmap].
      split; [lia|]. split; [lia|].
      by replace (i + 1 + Z.of_nat 0) with (i + 1) by lia.
    + exists 1%nat. cbn [fst snd seq fmap list_fmap].
      split; [lia|]. split; [lia|].
      by replace (i + 1 + Z.of_nat 0) with (i + 1) by lia.
Qed.
End RetryFacts.

Lemma try_logs_from_zero (m : nat) :
  (fun j : nat => try_log (0 + 1 + Z.of_nat j)) <$> seq 0 m = try_logs m.
Proof.
  unfold try_logs. apply list_fmap_ext. intros _ j _. f_equal. lia.
Qed.

Lemma try_logs_snoc (m : nat) :
  try_logs (S m) = try_logs m ++ [try_log (Z.of_nat (S m))].
Proof. unfold try_logs. by rewrite seq_S, fmap_app. Qed.

(** X16. [retryIndefinitely] never returns: whatever the operation does and
    however long one waits, the call has either thrown or is still under
    way. *)
Theorem retryIndefinitely_never_returns
    (longRunningOperation : nat -> outcome unit) (fuel : nat) :
  fst (fst (retryIndefinitely longRunningOperation fuel)) <> Returned tt.
Proof.
  unfold retryIndefinitely, xrange_call, xrange. cbn [default from_option]. unfold id.
  rewrite retry_for_of_start. apply retry_for_of_never_returns.
Qed.

(** X17. While the operation is fulfilled, [retryIndefinitely] repeats it:
    if its first [n] calls are fulfilled, then after [n] rounds it has been
    called [n] times, the console shows "1. try:" to "n. try:", and the loop
    is still under way. *)
Theorem retryIndefinitely_repeats_on_success
    (longRunningOperation : nat -> outcome unit) (n : nat) :
  (forall j : nat, (j < n)%nat -> longRunningOperation j = Returned tt) ->
  retryIndefinitely longRunningOperation n = (Running, n, try_logs n).
Proof.
  intros Hok.
  unfold retryIndefinitely, xrange_call, xrange. cbn [default from_option]. unfold id.
  rewrite retry_for_of_start.
  replace n with (n + 0)%nat at 1 by lia.
  rewrite retry_for_of_fulfilled by exact Hok.
  cbn [retry_for_of app Nat.add]. by rewrite try_logs_from_zero.
Qed.

Lemma retryIndefinitely_repeats_on_success_witness :
  retryIndefinitely (fun _ => Returned tt) 3
  = (Running, 3%nat, ["1. try:"; "2. try:"; "3. try:"]).
Proof.
  apply (retryIndefinitely_repeats_on_success (fun _ => Returned tt) 3).
  reflexivity.
Defined.

(** X18. The first rejection ends [retryIndefinitely]: if the first [n]
    calls of the operation are fulfilled and the next one is rejected with
    [err], then [retryIndefinitely] throws [err] after exactly [n + 1] calls
    and the log lines "1. try:" to "(n+1). try:"; the operation is not
    called again. *)
Theorem retryIndefinitely_stops_at_rejection
    (longRunningOperation : nat -> outcome unit) (n fuel : nat) (err : JSError) :
  (forall j : nat, (j < n)%nat -> longRunningOperation j = Returned tt) ->
  longRunningOperation n = Thrown err ->
  (n < fuel)%nat ->
  retryIndefinitely longRunningOperation fuel
  = (Thrown err, S n, try_logs (S n)).
Proof.
  intros Hok Herr Hf.
  unfold retryIndefinitely, xrange_call, xrange. cbn [default from_option]. unfold id.
  rewrite retry_for_of_start.
  replace fuel with (n + S (fuel - S n))%nat by lia.
  rewrite retry_for_of_fulfilled by exact Hok.
  cbn [retry_for_of xrange_next Nat.add].
  rewrite xrange_loop_active by reflexivity. cbn [done value to_string].
  rewrite Herr, try_logs_from_zero, try_logs_snoc. cbn [app Nat.add].
  unfold try_log.
  by replace (0 + Z.of_nat n + 1) with (Z.of_nat (S n)) by lia.
Qed.

Lemma retryIndefinitely_stops_at_rejection_witness :
  retryIndefinitely
    (fun k => if (k <? 2)%nat then Returned tt else Thrown (Error "boom")) 10
  = (Thrown (Error "boom"), 3%nat, ["1. try:"; "2. try:"; "3. try:"]).
Proof.
  apply (retryIndefinitely_stops_at_rejection
           (fun k => if (k <? 2)%nat then Returned tt else Thrown (Error "boom"))
           2 10 (Error "boom")); [|reflexivity|lia].
  intros j Hj. destruct j as [|[|j]]; [reflexivity|reflexivity|lia].
Defined.

(** X19. Whatever the operation does, [retryIndefinitely] logs one line
    before each call of it and nothing else: at any moment the console shows
    exactly "1. try:" to "m. try:", where [m] is the number of calls of the
    operation made so far, and [m] is at most the number of rounds. *)
Theorem retryIndefinitely_logs_each_try
    (longRunningOperation : nat -> outcome unit) (fuel : nat) :
  let run := retryIndefinitely longRunningOperation fuel in
  snd run = try_logs (snd (fst run))
  /\ length (snd run) = snd (fst run)
  /\ (snd (fst run) <= fuel)%nat.
Proof.
  cbn zeta.
  unfold retryIndefinitely, xrange_call, xrange. cbn [default from_option]. unfold id.
  rewrite retry_for_of_start.
  destruct (retry_for_of_logs longRunningOperation fuel 0 O [])
    as (m & Hm & Ha & Ho).
  cbn zeta in Ha, Ho. rewrite Ho, Ha, try_logs_from_zero. cbn [app Nat.add].
  split; [reflexivity|]. split; [|exact Hm].
  unfold try_logs. by rewrite length_fmap, length_seq.
Qed.
